(** * Flamingo: the AI coordination pipeline of [server/routes.ts]

    A shallow embedding of [analyzeMessage], [getSpecialistResponse],
    [coordinateAIResponse] and of the message-posting route, with the
    properties the specification states about them. *)

From Stdlib Require Import String Ascii NArith.
From stdpp Require Import base option list strings gmap.

Local Open Scope string_scope.
Local Open Scope list_scope.

(** ** JavaScript strings

    A JavaScript string is a sequence of code units.  The model keeps the
    code units of the Latin-1 range (one [ascii] each), which contains every
    keyword, identifier and template of the program. *)
Module JS.

(** [String.prototype.toLowerCase] on one code unit of the Latin-1 range:
    A-Z, and the accented capitals U+00C0..U+00DE except the multiplication
    sign U+00D7, move up by 32; every other code unit is left alone. *)
Definition lower_unit (c : ascii) : ascii :=
  let n := N_of_ascii c in
  if ((65 <=? n) && (n <=? 90))%N
     || ((192 <=? n) && (n <=? 222) && negb (n =? 215))%N
  then ascii_of_N (n + 32)
  else c.

Fixpoint toLowerCase (s : string) : string :=
  match s with
  | EmptyString => EmptyString
  | String c s' => String (lower_unit c) (toLowerCase s')
  end.

(** [s.startsWith(t)]. *)
Fixpoint startsWith (s t : string) : bool :=
  match t, s with
  | EmptyString, _ => true
  | String _ _, EmptyString => false
  | String b t', String a s' => Ascii.eqb a b && startsWith s' t'
  end.

(** [s.includes(t)]: [t] occurs in [s] at some position. *)
Fixpoint includes (s t : string) : bool :=
  startsWith s t ||
  match s with
  | EmptyString => false
  | String _ s' => includes s' t
  end.

(** The characters of [s] after its first [n]. *)
Fixpoint skip (n : nat) (s : string) : string :=
  match n, s with
  | O, _ => s
  | S _, EmptyString => EmptyString
  | S n', String _ s' => skip n' s'
  end.

(** [s.replace(pat, repl)] with a string pattern and a replacement without
    [$]: only the first occurrence of [pat] is replaced. *)
Fixpoint replace (s pat repl : string) : string :=
  if startsWith s pat then repl +:+ skip (String.length pat) s
  else match s with
       | EmptyString => EmptyString
       | String c s' => String c (replace s' pat repl)
       end.

(** [xs.join(sep)]. *)
Fixpoint join (xs : list string) (sep : string) : string :=
  match xs with
  | [] => EmptyString
  | [x] => x
  | x :: rest => x +:+ sep +:+ join rest sep
  end.

(** White space of the Latin-1 range: TAB, LF, VT, FF, CR, SPACE, NBSP. *)
Definition is_white_space (c : ascii) : bool :=
  let n := N_of_ascii c in
  ((9 <=? n) && (n <=? 13) || (n =? 32) || (n =? 160))%N.

Fixpoint white_space_only (s : string) : bool :=
  match s with
  | EmptyString => true
  | String c s' => is_white_space c && white_space_only s'
  end.

(** Every occurrence of the character [a] replaced by [b]. *)
Fixpoint replace_every (a b : ascii) (s : string) : string :=
  match s with
  | EmptyString => EmptyString
  | String c s' => String (if Ascii.eqb c a then b else c) (replace_every a b s')
  end.

End JS.

(** ** The classifier: [analyzeMessage] *)

Record Context := { originalMessage : string }.

Record Analysis := {
  analysis : string;
  specialists : list string;
  context : Context
}.

(** [specialists.push(id)] when [cond] holds. *)
Definition push_if (cond : bool) (id : string) (specialists : list string)
  : list string :=
  if cond then specialists ++ [id] else specialists.

(** The body of [analyzeMessage] from the first [if] to the default. *)
Definition select (lowerMessage : string) : list string :=
  let specialists := [] in
  let specialists :=
    push_if (JS.includes lowerMessage "code" || JS.includes lowerMessage "react"
             || JS.includes lowerMessage "javascript"
             || JS.includes lowerMessage "component")
            "code_ai" specialists in
  let specialists :=
    push_if (JS.includes lowerMessage "design" || JS.includes lowerMessage "ui"
             || JS.includes lowerMessage "ux" || JS.includes lowerMessage "style")
            "design_ai" specialists in
  let specialists :=
    push_if (JS.includes lowerMessage "write" || JS.includes lowerMessage "content"
             || JS.includes lowerMessage "documentation")
            "writing_ai" specialists in
  let specialists :=
    push_if (JS.includes lowerMessage "analyze"
             || JS.includes lowerMessage "performance"
             || JS.includes lowerMessage "optimize")
            "analysis_ai" specialists in
  push_if (Nat.eqb (length specialists) 0) "code_ai" specialists.

Definition analyzeMessage (message : string) : Analysis :=
  let lowerMessage := JS.toLowerCase message in
  let specialists := select lowerMessage in
  {| analysis :=
       "I'll coordinate with our specialists to help you: "
       +:+ JS.join (map (fun s => JS.replace s "_" " ") specialists) ", ";
     specialists := specialists;
     context := {| originalMessage := message |} |}.

(** ** The specialist registry: [getSpecialistResponse] *)

(** Metadata payloads are plain JSON values. *)
#[warnings="-register-all"]
Inductive Json :=
| JString (s : string)
| JArray (items : list Json)
| JObject (fields : list (string * Json)).

Record SpecialistResponse := { content : string; metadata : Json }.

Definition code_ai_entry : SpecialistResponse :=
  {| content := "I'll help you with the code implementation. Based on your request, I recommend creating a React component with TypeScript for better type safety and maintainability.";
     metadata := JObject [("type", JString "code"); ("language", JString "javascript")] |}.

Definition design_ai_entry : SpecialistResponse :=
  {| content := "For the UI/UX design, I suggest following modern design principles with proper spacing, typography, and accessibility considerations. The design should be responsive and user-friendly.";
     metadata := JObject [("type", JString "design");
                          ("recommendations",
                           JArray [JString "responsive"; JString "accessible"; JString "modern"])] |}.

Definition writing_ai_entry : SpecialistResponse :=
  {| content := "I'll help you with clear, concise content that communicates effectively with your users. The writing should be professional yet approachable.";
     metadata := JObject [("type", JString "writing"); ("tone", JString "professional")] |}.

Definition analysis_ai_entry : SpecialistResponse :=
  {| content := "From an analysis perspective, I recommend considering performance implications, scalability, and best practices for long-term maintenance.";
     metadata := JObject [("type", JString "analysis");
                          ("focus", JArray [JString "performance"; JString "scalability"])] |}.

(** The own properties of the object literal [responses]. *)
Definition responses : gmap string SpecialistResponse :=
  list_to_map [("code_ai", code_ai_entry); ("design_ai", design_ai_entry);
               ("writing_ai", writing_ai_entry); ("analysis_ai", analysis_ai_entry)].

(** An object literal inherits from [Object.prototype]; these are the
    property names found there (ECMAScript, with its Annex B).  Each of them
    reads as a function, and [__proto__] as the prototype object itself, so
    every one is truthy. *)
Definition object_prototype_names : list string :=
  ["constructor"; "hasOwnProperty"; "isPrototypeOf"; "propertyIsEnumerable";
   "toLocaleString"; "toString"; "valueOf"; "__proto__";
   "__defineGetter__"; "__defineSetter__"; "__lookupGetter__"; "__lookupSetter__"].

(** What a property read on [responses] can yield, [undefined] apart. *)
Inductive Member :=
| Entry (r : SpecialistResponse)   (* one of the four entries of the literal *)
| Inherited (name : string).       (* a member of [Object.prototype] *)

(** [responses[key]]: own properties first, then the prototype; [None] is
    [undefined]. *)
Definition responses_get (key : string) : option Member :=
  match responses !! key with
  | Some r => Some (Entry r)
  | None =>
      if decide (key ∈ object_prototype_names) then Some (Inherited key) else None
  end.

(** [responses[specialist] || responses.code_ai]. *)
Definition getSpecialistResponse (specialist message : string) (context : Context)
  : Member :=
  default (Entry code_ai_entry) (responses_get specialist).

(** [v.content] and [v.metadata]; the members of [Object.prototype] have
    neither property, the read gives [undefined]. *)
Definition member_content (v : Member) : option string :=
  match v with Entry r => Some (content r) | Inherited _ => None end.

Definition member_metadata (v : Member) : option Json :=
  match v with Entry r => Some (metadata r) | Inherited _ => None end.


(** ** Messages and the conversation store *)

(** The argument of [storage.createMessage].  A field read off a JavaScript
    value can be [undefined], which is [None] here. *)
Record InsertMessage := {
  ins_conversationId : string;
  ins_role : string;
  ins_content : option string;
  ins_specialist : option string;
  ins_metadata : option Json
}.

Record Message := {
  msg_id : string;
  msg_conversationId : string;
  msg_role : string;
  msg_content : option string;
  msg_specialist : option string;
  msg_metadata : option Json;
  msg_createdAt : N
}.

(** The fields of a stored Message that came from the caller. *)
Definition inserted (m : Message) : InsertMessage :=
  {| ins_conversationId := msg_conversationId m;
     ins_role := msg_role m;
     ins_content := msg_content m;
     ins_specialist := msg_specialist m;
     ins_metadata := msg_metadata m |}.

(** What a call can throw: a [z.ZodError] with its issues, or anything else. *)
Inductive Exn :=
| ZodError (errors : list string)
| OtherError (message : string).

(** The store is the log of the Messages created so far. *)
Definition Store := list Message.

(** An [async] computation over the store: it ends with a value or with a
    thrown exception, and what it wrote before throwing stays written. *)
Definition M (A : Type) : Type := Store -> (Exn + A) * Store.

Definition ret {A} (a : A) : M A := fun st => (inr a, st).

Definition throw {A} (e : Exn) : M A := fun st => (inl e, st).

Definition bind {A B} (c : M A) (k : A -> M B) : M B :=
  fun st =>
    match c st with
    | (inr a, st') => k a st'
    | (inl e, st') => (inl e, st')
    end.

Notation "'let*' x ':=' c 'in' k" := (bind c (fun x => k))
  (at level 10, x name, c at level 100, k at level 200).

(** The request, the validated record and the response of the route
    [POST /api/conversations/:id/messages]. *)
Record Request (Body : Type) := {
  req_user_claims_sub : string;
  req_params_id : string;
  req_body : Body
}.
Arguments req_user_claims_sub {Body} _.
Arguments req_params_id {Body} _.
Arguments req_body {Body} _.

(** What [insertMessageSchema.parse] returns: a record whose content is a
    string. *)
Record ValidatedMessage := {
  val_conversationId : string;
  val_role : string;
  val_content : string;
  val_specialist : option string;
  val_metadata : option Json
}.

Definition insert_of (v : ValidatedMessage) : InsertMessage :=
  {| ins_conversationId := val_conversationId v;
     ins_role := val_role v;
     ins_content := Some (val_content v);
     ins_specialist := val_specialist v;
     ins_metadata := val_metadata v |}.

Inductive ResponseBody :=
| Message_ (message : string)
| MessageErrors (message : string) (errors : list string)
| Posted (userMessage : Message) (aiResponses : list Message).

Record Response := { status : nat; json : ResponseBody }.

Section Coordination.

(** Modelled from the spec: the module [./storage] is not part of the
    sources.  [Store.append(record) -> (id, timestamp)] either fails, leaving
    the log as it is, or appends the record with the identifier and the
    timestamp the store assigns.  Which appends fail, and which identifier
    and timestamp a record gets, is the store's business. *)
Variable rejects : Store -> InsertMessage -> option Exn.
Variable assigns : Store -> InsertMessage -> string * N.

Definition createMessage (ins : InsertMessage) : M Message :=
  fun st =>
    match rejects st ins with
    | Some e => (inl e, st)
    | None =>
        let m := {| msg_id := fst (assigns st ins);
                    msg_conversationId := ins_conversationId ins;
                    msg_role := ins_role ins;
                    msg_content := ins_content ins;
                    msg_specialist := ins_specialist ins;
                    msg_metadata := ins_metadata ins;
                    msg_createdAt := snd (assigns st ins) |} in
        (inr m, st ++ [m])
    end.

(** ** The dispatcher: [coordinateAIResponse] *)

(** The [for ... of] loop over [coordinatorResponse.specialists]. *)
Fixpoint delegate (conversationId userMessage : string) (context : Context)
    (specialists : list string) (responses : list Message) : M (list Message) :=
  match specialists with
  | [] => ret responses
  | specialist :: rest =>
      let specialistResponse := getSpecialistResponse specialist userMessage context in
      let* specialistMessage := createMessage
        {| ins_conversationId := conversationId;
           ins_role := "assistant";
           ins_content := member_content specialistResponse;
           ins_specialist := Some specialist;
           ins_metadata := member_metadata specialistResponse |} in
      delegate conversationId userMessage context rest (responses ++ [specialistMessage])
  end.

Definition coordinateAIResponse (userMessage conversationId : string)
  : M (list Message) :=
  let coordinatorResponse := analyzeMessage userMessage in
  let responses := [] in
  let* coordinatorMessage := createMessage
    {| ins_conversationId := conversationId;
       ins_role := "coordinator";
       ins_content := Some (analysis coordinatorResponse);
       ins_specialist := Some "coordinator";
       ins_metadata :=
         Some (JObject [("specialists",
                         JArray (map JString (specialists coordinatorResponse)))]) |} in
  delegate conversationId userMessage (context coordinatorResponse)
           (specialists coordinatorResponse) (responses ++ [coordinatorMessage]).

(** ** The route [POST /api/conversations/:id/messages] *)

(** Modelled from the spec: [storage.getConversation] (module [./storage])
    and [insertMessageSchema] (module [@shared/schema]) are not part of the
    sources.  The first is the ownership check, which returns the
    conversation, returns nothing, or throws; the second returns the
    validated record or throws a [ZodError] with its issues. *)
Variables Body Conversation : Type.
Variable getConversation : string -> string -> Exn + option Conversation.
Variable insertMessageSchema_parse : Body -> string -> list string + ValidatedMessage.

(** The [try] block of the route. *)
Definition postMessage_try (req : Request Body) : M Response :=
  let userId := req_user_claims_sub req in
  let conversationId := req_params_id req in
  let* conversation := (fun st => (getConversation conversationId userId, st)) in
  match conversation with
  | None => ret {| status := 404; json := Message_ "Conversation not found" |}
  | Some _ =>
      let* validatedData := match insertMessageSchema_parse (req_body req) conversationId with
        | inl errors => throw (ZodError errors)
        | inr v => ret v
        end in
      let* userMessage := createMessage (insert_of validatedData) in
      let* aiResponses := coordinateAIResponse (val_content validatedData) conversationId in
      ret {| status := 200; json := Posted userMessage aiResponses |}
  end.

(** The route handler, the callback that runs after the [isAuthenticated]
    middleware has let the request through: the [try] block and its
    [catch]. *)
Definition postMessage (req : Request Body) (st : Store) : Response * Store :=
  match postMessage_try req st with
  | (inr res, st') => (res, st')
  | (inl (ZodError errors), st') =>
      ({| status := 400; json := MessageErrors "Invalid message data" errors |}, st')
  | (inl _, st') =>
      ({| status := 500; json := Message_ "Failed to create message" |}, st')
  end.

End Coordination.

(** ** The specification's vocabulary *)

(** The Registry's identifiers, as the specification lists them. *)
Definition known_identifiers : list string :=
  ["code_ai"; "design_ai"; "writing_ai"; "analysis_ai"].

(** The Registry's [has(identifier)], read on the code: the identifier is a
    key of [responses]. *)
Definition has (identifier : string) : bool :=
  bool_decide (is_Some (responses !! identifier)).

(** The four keyword groups of the specification, in evaluation order. *)
Definition keyword_groups : list (string * list string) :=
  [("code_ai", ["code"; "react"; "javascript"; "component"]);
   ("design_ai", ["design"; "ui"; "ux"; "style"]);
   ("writing_ai", ["write"; "content"; "documentation"]);
   ("analysis_ai", ["analyze"; "performance"; "optimize"])].

Definition keywords : list string := concat (map snd keyword_groups).

(** Some keyword of the group occurs in the lowercased text. *)
Definition group_matches (lowerText : string) (group : string * list string) : bool :=
  existsb (JS.includes lowerText) (snd group).

(** The text, once lowercased, contains none of the defined keywords. *)
Definition no_keyword (messageText : string) : Prop :=
  Forall (fun kw => JS.includes (JS.toLowerCase messageText) kw = false) keywords.

(** [classify] as the specification words it: lowercase, keep the groups that
    match in their fixed order, fall back to [code_ai] when none does. *)
Definition classify_spec (messageText : string) : list string :=
  let lowerText := JS.toLowerCase messageText in
  match map fst (List.filter (group_matches lowerText) keyword_groups) with
  | [] => ["code_ai"]
  | selected => selected
  end.

(** The rationale as the specification words it: the fixed sentence, then the
    identifiers with underscores replaced by spaces, comma-joined. *)
Definition rationale_spec (selected : list string) : string :=
  "I'll coordinate with our specialists to help you: "
  +:+ JS.join (map (JS.replace_every "_" " ") selected) ", ".

(** The records a round hands to the store, in order. *)
Definition coordinator_record (conversationId : string) (a : Analysis) : InsertMessage :=
  {| ins_conversationId := conversationId;
     ins_role := "coordinator";
     ins_content := Some (analysis a);
     ins_specialist := Some "coordinator";
     ins_metadata := Some (JObject [("specialists", JArray (map JString (specialists a)))]) |}.

Definition specialist_record (conversationId userMessage : string) (ctx : Context)
    (specialist : string) : InsertMessage :=
  let handled := getSpecialistResponse specialist userMessage ctx in
  {| ins_conversationId := conversationId;
     ins_role := "assistant";
     ins_content := member_content handled;
     ins_specialist := Some specialist;
     ins_metadata := member_metadata handled |}.

Definition round_records (userMessage conversationId : string) : list InsertMessage :=
  let a := analyzeMessage userMessage in
  coordinator_record conversationId a
  :: map (specialist_record conversationId userMessage (context a)) (specialists a).

(** "Looking up an identifier absent from the Registry fails": no absent
    identifier resolves to a handler response. *)
Definition unknown_lookup_fails : Prop :=
  forall identifier message ctx r,
    has identifier = false ->
    getSpecialistResponse identifier message ctx <> Entry r.

(** "Every key that is not one of the four known identifiers resolves to the
    [code_ai] response." *)
Definition unknown_lookup_falls_back : Prop :=
  forall key message ctx,
    key ∉ known_identifiers ->
    getSpecialistResponse key message ctx = Entry code_ai_entry.

(** The selection is decided by four bits, one per keyword group. *)
Definition selection (code design writing analysis : bool) : list string :=
  let picked := push_if analysis "analysis_ai"
                  (push_if writing "writing_ai"
                     (push_if design "design_ai" (push_if code "code_ai" []))) in
  push_if (Nat.eqb (length picked) 0) "code_ai" picked.

(** ** Concrete stores and a concrete route *)

(** A store that accepts every record. *)
Definition accepting : Store -> InsertMessage -> option Exn := fun _ _ => None.

(** A store that becomes unavailable once its log holds [n] Messages. *)
Definition unavailable_at (n : nat) : Store -> InsertMessage -> option Exn :=
  fun st _ =>
    if Nat.eqb (length st) n then Some (OtherError "store unavailable") else None.

(** Identifiers and timestamps that count the Messages of the log. *)
Definition numbering : Store -> InsertMessage -> string * N :=
  fun st _ => ("message-" +:+ String.concat "" (replicate (length st) "i"),
               N.of_nat (length st)).

(** A route whose bodies are the message text itself: every conversation is
    found, and the schema asks for a text that is not empty. *)
Definition any_conversation : string -> string -> Exn + option unit :=
  fun _ _ => inr (Some tt).

(** A route under which no conversation is found. *)
Definition no_conversation : string -> string -> Exn + option unit :=
  fun _ _ => inr None.

(** A store that validates on its own and throws a [ZodError] once its log
    holds [n] Messages. *)
Definition validating_at (n : nat) : Store -> InsertMessage -> option Exn :=
  fun st _ =>
    if Nat.eqb (length st) n then Some (ZodError ["metadata: Invalid input"]) else None.

Definition text_schema_parse (body conversationId : string)
  : list string + ValidatedMessage :=
  if String.eqb body "" then inl ["content: Required"]
  else inr {| val_conversationId := conversationId;
              val_role := "user";
              val_content := body;
              val_specialist := None;
              val_metadata := None |}.

(** ** The chat page: [client/src/pages/chat.tsx] *)

Module Chat.

(** [s.trimStart()], [s.trimEnd()] and [s.trim()]. *)
Fixpoint trimStart (s : string) : string :=
  match s with
  | EmptyString => EmptyString
  | String c s' => if JS.is_white_space c then trimStart s' else s
  end.

Fixpoint trimEnd (s : string) : string :=
  match s with
  | EmptyString => EmptyString
  | String c s' =>
      match trimEnd s' with
      | EmptyString => if JS.is_white_space c then EmptyString else String c EmptyString
      | kept => String c kept
      end
  end.

Definition trim (s : string) : string := trimEnd (trimStart s).

(** [s.slice(0, n)]. *)
Fixpoint slice_to (n : nat) (s : string) : string :=
  match n, s with
  | O, _ => EmptyString
  | S _, EmptyString => EmptyString
  | S n', String c s' => String c (slice_to n' s')
  end.

(** A string is falsy when it is empty. *)
Definition falsy (s : string) : bool :=
  match s with EmptyString => true | String _ _ => false end.

(** The title [sendMessageMutation] gives a new conversation:
    [content.slice(0, 50) + (content.length > 50 ? "..." : "")]. *)
Definition conversationTitle (content : string) : string :=
  slice_to 50 content +:+ (if Nat.ltb 50 (String.length content) then "..." else "").

(** [handleSendMessage], as a function of the input state: [None] when it
    returns early, [Some c] when it calls [sendMessageMutation.mutate(c)]. *)
Definition handleSendMessage (messageInput : string) : option string :=
  if falsy (trim messageInput) then None else Some messageInput.

(** The [disabled] attribute of the send button. *)
Definition sendDisabled (messageInput : string) (isPending : bool) : bool :=
  falsy (trim messageInput) || isPending.

(** The [onKeyDown] handler of the text area. *)
Definition onKeyDown (key : string) (metaKey ctrlKey : bool) (messageInput : string)
  : option string :=
  if String.eqb key "Enter" && (metaKey || ctrlKey)
  then handleSendMessage messageInput
  else None.

End Chat.

(** * Properties *)

(** ** Strings *)

Lemma lower_unit_white_space c :
  JS.is_white_space c = true -> JS.lower_unit c = c.
Proof.
  destruct c as [[] [] [] [] [] [] [] []]; vm_compute; congruence.
Qed.

Lemma toLowerCase_white_space s :
  JS.white_space_only s = true -> JS.toLowerCase s = s.
Proof.
  induction s as [|c s IH]; simpl; [done|].
  intros [Hc Hs]%andb_prop.
  by rewrite lower_unit_white_space, IH.
Qed.

(** A string of white space contains no string that starts with anything
    else. *)
Lemma white_space_excludes s c t :
  JS.white_space_only s = true ->
  JS.is_white_space c = false ->
  JS.includes s (String c t) = false.
Proof.
  intros Hs Hc. induction s as [|a s IH]; simpl in *; [done|].
  apply andb_prop in Hs as [Ha Hs].
  rewrite (IH Hs), orb_false_r.
  destruct (Ascii.eqb_spec a c) as [->|]; [congruence | done].
Qed.

(** ** The classifier *)

Lemma select_selection lowerMessage :
  select lowerMessage
  = selection (group_matches lowerMessage ("code_ai", ["code"; "react"; "javascript"; "component"]))
              (group_matches lowerMessage ("design_ai", ["design"; "ui"; "ux"; "style"]))
              (group_matches lowerMessage ("writing_ai", ["write"; "content"; "documentation"]))
              (group_matches lowerMessage ("analysis_ai", ["analyze"; "performance"; "optimize"])).
Proof.
  unfold select, selection, group_matches; simpl.
  by rewrite !orb_false_r, !orb_assoc.
Qed.

Lemma select_no_keyword message :
  no_keyword message -> select (JS.toLowerCase message) = ["code_ai"].
Proof.
  unfold no_keyword, keywords; simpl. intros H.
  repeat match goal with
         | H : Forall _ (_ :: _) |- _ => apply Forall_cons in H as [? H]
         end.
  rewrite select_selection. unfold group_matches; simpl.
  by repeat match goal with E : JS.includes _ _ = false |- _ => rewrite E; clear E end.
Qed.

Lemma white_space_no_keyword message :
  JS.white_space_only message = true -> no_keyword message.
Proof.
  intros H. unfold no_keyword. rewrite (toLowerCase_white_space _ H).
  unfold keywords; simpl.
  repeat constructor; by apply white_space_excludes.
Qed.

Ltac by_selection :=
  unfold analyzeMessage; simpl;
  rewrite ?select_selection;
  repeat match goal with
         | |- context [group_matches ?l ?g] =>
             let b := fresh "matched" in
             generalize (group_matches l g); intros b
         end;
  repeat match goal with b : bool |- _ => destruct b end.

Lemma classify_spec_selection message :
  classify_spec message = select (JS.toLowerCase message).
Proof.
  unfold classify_spec, keyword_groups; simpl.
  by_selection; reflexivity.
Qed.

(** C2: [analyzeMessage] lowercases the text and selects by substring
    membership against the four keyword groups in their fixed order: its
    selection is the one the specification's wording computes, it lists no
    specialist twice, its order is the evaluation order whatever the order
    of the keywords in the text, and the documentation-and-performance
    request selects [writing_ai] then [analysis_ai]. *)
Theorem C2_classify_by_keyword_groups :
  (forall message,
      specialists (analyzeMessage message) = classify_spec message
      /\ NoDup (specialists (analyzeMessage message))
      /\ sublist (specialists (analyzeMessage message)) known_identifiers)
  /\ specialists (analyzeMessage
       "Can you help me write documentation and also analyze performance?")
     = ["writing_ai"; "analysis_ai"].
Proof.
  split; [|by vm_compute].
  intros message. split; [by rewrite classify_spec_selection|].
  split.
  - by_selection; apply (bool_decide_unpack _); by vm_compute.
  - by_selection; unfold known_identifiers, selection, push_if; simpl;
      repeat first [apply sublist_nil | apply sublist_skip | apply sublist_cons].
Qed.

(** C5: a text whose lowercased form contains none of the keywords is
    classified as exactly [code_ai]; white-space-only texts, the empty one
    among them, are such texts; and the selection is never empty. *)
Theorem C5_fallback_to_code_ai (message : string) :
  (no_keyword message -> specialists (analyzeMessage message) = ["code_ai"])
  /\ (JS.white_space_only message = true ->
      no_keyword message /\ specialists (analyzeMessage message) = ["code_ai"])
  /\ specialists (analyzeMessage message) <> [].
Proof.
  split; [apply select_no_keyword|]. split.
  - intros H. split; [by apply white_space_no_keyword|].
    by apply select_no_keyword, white_space_no_keyword.
  - by_selection; by vm_compute.
Qed.

Lemma C5_fallback_to_code_ai_witness :
  (no_keyword "Hello, how are you?"
   /\ specialists (analyzeMessage "Hello, how are you?") = ["code_ai"])
  /\ (JS.white_space_only "" = true /\ specialists (analyzeMessage "") = ["code_ai"])
  /\ (JS.white_space_only "   " = true /\ specialists (analyzeMessage "   ") = ["code_ai"]).
Proof.
  assert (Hk : no_keyword "Hello, how are you?").
  { unfold no_keyword, keywords; simpl. repeat constructor. }
  split; [split; [exact Hk | exact (proj1 (C5_fallback_to_code_ai _) Hk)]|].
  split; (split; [reflexivity|]).
  - exact (proj2 (proj1 (proj2 (C5_fallback_to_code_ai "")) eq_refl)).
  - exact (proj2 (proj1 (proj2 (C5_fallback_to_code_ai "   ")) eq_refl)).
Defined.

(** C6: the selection has no duplicate, and each of its members is one of
    the four identifiers of the Registry, a key of [responses]. *)
Theorem C6_selection_known_and_distinct (message : string) :
  NoDup (specialists (analyzeMessage message))
  /\ Forall (fun id => id ∈ known_identifiers /\ has id = true)
            (specialists (analyzeMessage message)).
Proof.
  split.
  - by_selection; apply (bool_decide_unpack _); by vm_compute.
  - by_selection; unfold selection, push_if; simpl;
      repeat constructor; try (apply (bool_decide_unpack _); by vm_compute).
Qed.

Lemma specialists_known message :
  Forall (fun id => id ∈ known_identifiers) (specialists (analyzeMessage message)).
Proof.
  by_selection; unfold selection, push_if; simpl;
    repeat constructor; apply (bool_decide_unpack _); by vm_compute.
Qed.

(** ** The registry *)

Lemma known_identifier_entry identifier :
  identifier ∈ known_identifiers ->
  exists r, responses !! identifier = Some r
            /\ forall message ctx, getSpecialistResponse identifier message ctx = Entry r.
Proof.
  unfold known_identifiers. rewrite !elem_of_cons, elem_of_nil.
  intros [->|[->|[->|[->|[]]]]]; eexists; split; intros; by vm_compute.
Qed.

Lemma has_known identifier :
  has identifier = true <-> identifier ∈ known_identifiers.
Proof.
  unfold has. rewrite bool_decide_eq_true. split.
  - intros [r Hr]. unfold responses in Hr.
    apply elem_of_list_to_map_2 in Hr.
    apply (list_elem_of_fmap_2 fst) in Hr. exact Hr.
  - intros H. destruct (known_identifier_entry _ H) as (r & Hr & _). by exists r.
Qed.

(** A key that is neither an entry of [responses] nor a member of
    [Object.prototype] reads as [undefined], and the [||] gives the
    [code_ai] entry. *)
Lemma unlisted_key_gives_code_ai key message ctx :
  has key = false ->
  key ∉ object_prototype_names ->
  getSpecialistResponse key message ctx = Entry code_ai_entry.
Proof.
  unfold has, getSpecialistResponse, responses_get.
  rewrite bool_decide_eq_false, <- eq_None_not_Some. intros -> Hp.
  by rewrite decide_False.
Qed.

(** A selected specialist always resolves to its own entry. *)
Lemma selected_entry message specialist :
  specialist ∈ specialists (analyzeMessage message) ->
  exists r, responses !! specialist = Some r
            /\ forall text ctx, getSpecialistResponse specialist text ctx = Entry r.
Proof.
  intros H. apply known_identifier_entry.
  by apply (proj1 (Forall_forall _ _) (specialists_known message)).
Qed.

(** ** The store and the dispatcher *)

Section Rounds.

Variable rejects : Store -> InsertMessage -> option Exn.
Variable assigns : Store -> InsertMessage -> string * N.

Lemma createMessage_returns ins st m st' :
  createMessage rejects assigns ins st = (inr m, st') ->
  rejects st ins = None /\ st' = st ++ [m] /\ inserted m = ins.
Proof.
  unfold createMessage. destruct (rejects st ins); [done|].
  intros [= <- <-]. by destruct ins.
Qed.

Lemma createMessage_throws ins st e st' :
  createMessage rejects assigns ins st = (inl e, st') ->
  rejects st ins = Some e /\ st' = st.
Proof.
  unfold createMessage. destruct (rejects st ins); [|done].
  by intros [= <- <-].
Qed.

Lemma createMessage_accepted ins st :
  rejects st ins = None ->
  exists m, createMessage rejects assigns ins st = (inr m, st ++ [m])
            /\ inserted m = ins.
Proof.
  intros H. unfold createMessage. rewrite H. eexists. split; [done|].
  by destruct ins.
Qed.

(** The loop, when it returns: it appended one Message per specialist, in
    order, and returns them after what it was given. *)
Lemma delegate_returns cid text ctx sp acc st rs st' :
  delegate rejects assigns cid text ctx sp acc st = (inr rs, st') ->
  exists ms, rs = acc ++ ms /\ st' = st ++ ms
             /\ map inserted ms = map (specialist_record cid text ctx) sp.
Proof.
  revert acc st. induction sp as [|s sp IH]; intros acc st; simpl.
  - intros [= <- <-]. exists []. by rewrite !app_nil_r.
  - unfold bind at 1.
    destruct (createMessage _ _ _ st) as [[e|m] st1] eqn:Hc; [done|].
    apply createMessage_returns in Hc as (_ & -> & Hm).
    intros (ms & -> & -> & Hms)%IH.
    exists (m :: ms). rewrite <- !app_assoc. simpl.
    by rewrite Hm, Hms.
Qed.

(** The loop, when it throws: some specialist's append was rejected with
    that very exception; the Messages of the specialists before it are in
    the log, and nothing else was written. *)
Lemma delegate_throws cid text ctx sp acc st e st' :
  delegate rejects assigns cid text ctx sp acc st = (inl e, st') ->
  exists ms done failing pending,
    sp = done ++ failing :: pending
    /\ st' = st ++ ms
    /\ map inserted ms = map (specialist_record cid text ctx) done
    /\ rejects st' (specialist_record cid text ctx failing) = Some e.
Proof.
  revert acc st. induction sp as [|s sp IH]; intros acc st; simpl; [done|].
  unfold bind at 1.
  destruct (createMessage _ _ _ st) as [[e1|m] st1] eqn:Hc.
  - apply createMessage_throws in Hc as [Hr ->]. intros [= <- <-].
    exists [], [], s, sp. by rewrite app_nil_r.
  - apply createMessage_returns in Hc as (_ & -> & Hm).
    intros (ms & done & failing & pending & -> & -> & Hms & Hr)%IH.
    exists (m :: ms), (s :: done), failing, pending.
    rewrite <- app_assoc in *. simpl. by rewrite Hm, Hms.
Qed.

Lemma coordinate_returns text cid st rs st' :
  coordinateAIResponse rejects assigns text cid st = (inr rs, st') ->
  st' = st ++ rs /\ map inserted rs = round_records text cid.
Proof.
  unfold coordinateAIResponse, bind.
  destruct (createMessage _ _ _ st) as [[e|m] st1] eqn:Hc; [done|].
  apply createMessage_returns in Hc as (_ & -> & Hm).
  intros (ms & -> & -> & Hms)%delegate_returns.
  rewrite <- app_assoc. simpl. split; [done|].
  unfold round_records, coordinator_record. by rewrite Hm, Hms.
Qed.

Lemma coordinate_throws text cid st e st' :
  coordinateAIResponse rejects assigns text cid st = (inl e, st') ->
  exists appended failing pending,
    st' = st ++ appended
    /\ round_records text cid = map inserted appended ++ failing :: pending
    /\ rejects st' failing = Some e.
Proof.
  unfold coordinateAIResponse, bind.
  destruct (createMessage _ _ _ st) as [[e1|m] st1] eqn:Hc.
  - apply createMessage_throws in Hc as [Hr ->]. intros [= <- <-].
    eexists [], _, _. rewrite app_nil_r. by split; [|split].
  - apply createMessage_returns in Hc as (_ & -> & Hm).
    intros (ms & done & failing & pending & Hsp & -> & Hms & Hr)%delegate_throws.
    exists (m :: ms), (specialist_record cid text (context (analyzeMessage text)) failing),
           (map (specialist_record cid text (context (analyzeMessage text))) pending).
    rewrite <- app_assoc. split; [done|]. split.
    + unfold round_records. rewrite Hsp, map_app. simpl.
      by rewrite Hm, Hms.
    + rewrite <- app_assoc in Hr. exact Hr.
Qed.

(** A round over a store that accepts every record returns. *)
Lemma coordinate_total text cid st :
  (forall st0 ins, rejects st0 ins = None) ->
  exists rs, coordinateAIResponse rejects assigns text cid st = (inr rs, st ++ rs).
Proof.
  intros Hok.
  assert (Hloop : forall ctx sp acc st0,
             exists ms, delegate rejects assigns cid text ctx sp acc st0
                        = (inr (acc ++ ms), st0 ++ ms)).
  { intros ctx sp. induction sp as [|s sp IH]; intros acc st0; simpl.
    - exists []. by rewrite !app_nil_r.
    - unfold bind.
      match goal with
      | |- context [createMessage _ _ ?ins ?s] =>
          destruct (createMessage_accepted ins s (Hok _ _)) as (m & Hm & _)
      end.
      rewrite Hm.
      destruct (IH (acc ++ [m]) (st0 ++ [m])) as (ms & ->).
      exists (m :: ms). by rewrite <- !app_assoc. }
  unfold coordinateAIResponse, bind.
  match goal with
  | |- context [createMessage _ _ ?ins ?s] =>
      destruct (createMessage_accepted ins s (Hok _ _)) as (m & Hm & _)
  end.
  rewrite Hm.
  match goal with
  | |- context [delegate _ _ _ _ ?ctx ?sp ?acc ?s] =>
      destruct (Hloop ctx sp acc s) as (ms & ->)
  end.
  exists (m :: ms). simpl. by rewrite <- app_assoc.
Qed.

End Rounds.

(** The record appended for a known identifier carries the content and the
    metadata of that identifier's entry. *)
Lemma specialist_records_handled cid text ctx sp ms :
  Forall (fun s => s ∈ known_identifiers) sp ->
  map inserted ms = map (specialist_record cid text ctx) sp ->
  Forall2 (fun specialist m =>
             exists r,
               getSpecialistResponse specialist text ctx = Entry r
               /\ inserted m
                  = {| ins_conversationId := cid;
                       ins_role := "assistant";
                       ins_content := Some (content r);
                       ins_specialist := Some specialist;
                       ins_metadata := Some (metadata r) |})
          sp ms.
Proof.
  intros Hsp. revert ms.
  induction Hsp as [|s sp Hs Hsp IH]; intros [|m ms] Hms;
    try done; try by constructor.
  change (inserted m :: map inserted ms
          = specialist_record cid text ctx s
            :: map (specialist_record cid text ctx) sp) in Hms.
  constructor; [|apply IH; congruence].
  destruct (known_identifier_entry s Hs) as (r & _ & Hr).
  exists r. split; [apply Hr|].
  assert (Hm : inserted m = specialist_record cid text ctx s) by congruence.
  rewrite Hm. unfold specialist_record. by rewrite Hr.
Qed.

(** C1: a round that returns has appended exactly the Messages it returns,
    [1 + N] of them for [N] selected specialists: the coordinator Message
    first (role and specialist [coordinator], the rationale as content, the
    selection as metadata), then one [assistant] Message per selected
    specialist in selection order, carrying that specialist's handler
    result. *)
Theorem C1_round_appends_coordinator_then_specialists
    rejects assigns (userMessage conversationId : string) (st : Store)
    (responses : list Message) (st' : Store) :
  coordinateAIResponse rejects assigns userMessage conversationId st
    = (inr responses, st') ->
  let a := analyzeMessage userMessage in
  st' = st ++ responses
  /\ length responses = 1 + length (specialists a)
  /\ exists coordinatorMessage specialistMessages,
       responses = coordinatorMessage :: specialistMessages
       /\ inserted coordinatorMessage
          = {| ins_conversationId := conversationId;
               ins_role := "coordinator";
               ins_content := Some (analysis a);
               ins_specialist := Some "coordinator";
               ins_metadata :=
                 Some (JObject [("specialists", JArray (map JString (specialists a)))]) |}
       /\ Forall2 (fun specialist m =>
                     exists r,
                       getSpecialistResponse specialist userMessage (context a) = Entry r
                       /\ inserted m
                          = {| ins_conversationId := conversationId;
                               ins_role := "assistant";
                               ins_content := Some (content r);
                               ins_specialist := Some specialist;
                               ins_metadata := Some (metadata r) |})
                  (specialists a) specialistMessages.
Proof.
  intros [-> Hrs]%coordinate_returns a. split; [done|].
  unfold round_records in Hrs. fold a in Hrs.
  destruct responses as [|m ms]; [done|].
  change (inserted m :: map inserted ms
          = coordinator_record conversationId a
            :: map (specialist_record conversationId userMessage (context a))
                   (specialists a)) in Hrs.
  assert (Hm : inserted m = coordinator_record conversationId a) by congruence.
  assert (Hms : map inserted ms
                = map (specialist_record conversationId userMessage (context a))
                      (specialists a)) by congruence.
  clear Hrs. split.
  - simpl. f_equal. apply (f_equal length) in Hms.
    by rewrite !length_map in Hms.
  - exists m, ms. split; [done|]. split; [exact Hm|].
    apply specialist_records_handled; [apply specialists_known | exact Hms].
Qed.

Lemma C1_round_appends_coordinator_then_specialists_witness :
  exists rs,
    coordinateAIResponse accepting numbering
      "I need a react component for my ui design" "conversation-1" []
    = (inr rs, rs)
    /\ length rs = 3
    /\ map msg_role rs = ["coordinator"; "assistant"; "assistant"]
    /\ map msg_specialist rs = [Some "coordinator"; Some "code_ai"; Some "design_ai"].
Proof.
  eexists. split; [by vm_compute|].
  match goal with
  | |- length ?rs = _ /\ _ =>
      assert (H : coordinateAIResponse accepting numbering
                    "I need a react component for my ui design" "conversation-1" []
                  = (inr rs, rs)) by (by vm_compute);
      destruct (C1_round_appends_coordinator_then_specialists _ _ _ _ _ _ _ H)
        as (_ & Hlen & _)
  end.
  split; [exact Hlen|]. split; by vm_compute.
Defined.

(** The fields of the returned Messages, read off the records of the round. *)
Lemma returned_fields rejects assigns text cid st rs st' :
  coordinateAIResponse rejects assigns text cid st = (inr rs, st') ->
  map msg_conversationId rs = map ins_conversationId (round_records text cid)
  /\ map msg_role rs = map ins_role (round_records text cid)
  /\ map msg_content rs = map ins_content (round_records text cid)
  /\ map msg_specialist rs = map ins_specialist (round_records text cid)
  /\ map msg_metadata rs = map ins_metadata (round_records text cid).
Proof.
  intros [_ <-]%coordinate_returns. by rewrite !map_map.
Qed.

(** C7: the rationale is the fixed sentence followed by the selected
    identifiers, underscores replaced by spaces, comma-joined; the
    react-component request selects [code_ai] then [design_ai], and a round
    for it that returns has the coordinator Message first, with the sentence
    that names "code ai, design ai" as its content, then a Message of
    [code_ai] and one of [design_ai], all under the conversation of the
    round. *)
Theorem C7_rationale_template (message : string) :
  analysis (analyzeMessage message)
    = rationale_spec (specialists (analyzeMessage message))
  /\ specialists (analyzeMessage "I need a react component for my ui design")
     = ["code_ai"; "design_ai"]
  /\ forall rejects assigns (conversationId : string) (st : Store)
       (responses : list Message) (st' : Store),
       coordinateAIResponse rejects assigns
         "I need a react component for my ui design" conversationId st
         = (inr responses, st') ->
       map msg_role responses = ["coordinator"; "assistant"; "assistant"]
       /\ map msg_specialist responses
          = [Some "coordinator"; Some "code_ai"; Some "design_ai"]
       /\ map msg_conversationId responses
          = [conversationId; conversationId; conversationId]
       /\ head (map msg_content responses)
          = Some (Some "I'll coordinate with our specialists to help you: code ai, design ai").
Proof.
  split; [|split; [by vm_compute|]].
  - unfold rationale_spec. by_selection; by vm_compute.
  - intros rejects assigns conversationId st responses st'.
    intros (Hcid & Hrole & Hcontent & Hspecialist & _)%returned_fields.
    rewrite Hcid, Hrole, Hcontent, Hspecialist. by vm_compute.
Qed.

Lemma C7_rationale_template_witness :
  exists rs,
    coordinateAIResponse accepting numbering
      "I need a react component for my ui design" "conversation-7" []
    = (inr rs, rs)
    /\ analysis (analyzeMessage "Please STYLE and optimize this")
       = "I'll coordinate with our specialists to help you: design ai, analysis ai"
    /\ head (map msg_content rs)
       = Some (Some "I'll coordinate with our specialists to help you: code ai, design ai").
Proof.
  eexists. split; [by vm_compute|].
  destruct (C7_rationale_template "Please STYLE and optimize this") as (Ha & _ & Hround).
  split; [rewrite Ha; by vm_compute|].
  match goal with
  | |- head (map msg_content ?rs) = _ =>
      assert (H : coordinateAIResponse accepting numbering
                    "I need a react component for my ui design" "conversation-7" []
                  = (inr rs, rs)) by (by vm_compute);
      exact (proj2 (proj2 (proj2 (Hround _ _ _ _ _ _ H))))
  end.
Defined.

(** ** Unknown identifiers *)

(** C3, as stated, fails: the identifier [unknown_ai] is absent from the
    Registry and its lookup returns the [code_ai] entry. *)
Lemma C3_unknown_lookup_does_not_fail : ~ unknown_lookup_fails.
Proof.
  intros H.
  apply (H "unknown_ai" "" {| originalMessage := "" |} code_ai_entry); by vm_compute.
Qed.

(** C3, amended: looking up an identifier that is absent from the Registry,
    and is not the name of a member of [Object.prototype], does not fail but
    gives the [code_ai] entry; the dispatcher checks nothing, every
    identifier the classifier returns being a key of the Registry; and when
    a round fails, it fails with what the store threw on one of the round's
    records. *)
Theorem C3_unknown_identifier_falls_back (identifier message : string) (ctx : Context) :
  has identifier = false ->
  identifier ∉ object_prototype_names ->
  getSpecialistResponse identifier message ctx = Entry code_ai_entry
  /\ (forall text, Forall (fun id => has id = true) (specialists (analyzeMessage text)))
  /\ (forall rejects assigns text conversationId st e st',
         coordinateAIResponse rejects assigns text conversationId st = (inl e, st') ->
         exists record, record ∈ round_records text conversationId
                        /\ rejects st' record = Some e).
Proof.
  intros Hhas Hproto. split; [by apply unlisted_key_gives_code_ai|]. split.
  - intros text. eapply Forall_impl; [apply specialists_known|].
    intros id Hid. by apply has_known.
  - intros rejects assigns text cid st e st'.
    intros (appended & failing & pending & _ & Hrecords & Hr)%coordinate_throws.
    exists failing. split; [|done].
    rewrite Hrecords. apply elem_of_app. right. by left.
Qed.

Lemma C3_unknown_identifier_falls_back_witness :
  has "unknown_ai" = false
  /\ ("unknown_ai" ∉ object_prototype_names)
  /\ getSpecialistResponse "unknown_ai" "fix my code" {| originalMessage := "fix my code" |}
     = Entry code_ai_entry.
Proof.
  assert (H1 : has "unknown_ai" = false) by (by vm_compute).
  assert (H2 : "unknown_ai" ∉ object_prototype_names)
    by (apply (bool_decide_unpack _); by vm_compute).
  split; [exact H1|]. split; [exact H2|].
  exact (proj1 (C3_unknown_identifier_falls_back
                  "unknown_ai" "fix my code" {| originalMessage := "fix my code" |} H1 H2)).
Defined.

(** The key [constructor] is not one of the four identifiers, yet its
    lookup gives neither the [code_ai] entry nor any entry: the read finds
    the member that [responses] inherits from [Object.prototype], which is
    truthy, so the [||] never reaches [responses.code_ai]; the content and
    the metadata read off the result are [undefined]. *)
Lemma inherited_key_shadows_fallback (message : string) (ctx : Context) :
  ("constructor" ∉ known_identifiers)
  /\ getSpecialistResponse "constructor" message ctx = Inherited "constructor"
  /\ getSpecialistResponse "constructor" message ctx <> Entry code_ai_entry
  /\ member_content (getSpecialistResponse "constructor" message ctx) = None
  /\ member_metadata (getSpecialistResponse "constructor" message ctx) = None.
Proof.
  assert (Hk : "constructor" ∉ known_identifiers)
    by (apply (bool_decide_unpack _); by vm_compute).
  repeat split; done.
Qed.

(** C8, as stated, fails: [constructor] is not one of the four identifiers
    and its lookup does not return the [code_ai] entry. *)
Lemma C8_constructor_does_not_fall_back : ~ unknown_lookup_falls_back.
Proof.
  intros H.
  assert (Hk : "constructor" ∉ known_identifiers)
    by (apply (bool_decide_unpack _); by vm_compute).
  specialize (H "constructor" "" {| originalMessage := "" |} Hk).
  vm_compute in H. discriminate H.
Qed.

(** C8, amended: for every key that is neither one of the four identifiers
    nor the name of a member of [Object.prototype], the lookup returns the
    [code_ai] entry, its content and its metadata, and does not fail.  A
    round never aborts on a specialist key: each identifier it looks up is a
    selected one and resolves to its own entry, and when a round fails it
    fails with what the store threw on one of the round's records. *)
Theorem C8_unlisted_key_falls_back (key message : string) (ctx : Context) :
  key ∉ known_identifiers ->
  key ∉ object_prototype_names ->
  getSpecialistResponse key message ctx = Entry code_ai_entry
  /\ member_content (getSpecialistResponse key message ctx)
     = Some (content code_ai_entry)
  /\ member_metadata (getSpecialistResponse key message ctx)
     = Some (metadata code_ai_entry)
  /\ (forall text,
         Forall (fun specialist =>
                   exists r,
                     responses !! specialist = Some r
                     /\ getSpecialistResponse specialist text (context (analyzeMessage text))
                        = Entry r)
                (specialists (analyzeMessage text)))
  /\ (forall rejects assigns text conversationId st e st',
         coordinateAIResponse rejects assigns text conversationId st = (inl e, st') ->
         exists record, record ∈ round_records text conversationId
                        /\ rejects st' record = Some e).
Proof.
  intros Hknown Hproto.
  assert (Hhas : has key = false).
  { destruct (has key) eqn:E; [|done]. by apply has_known in E. }
  rewrite (unlisted_key_gives_code_ai key message ctx Hhas Hproto).
  split; [done|]. split; [done|]. split; [done|]. split.
  - intros text. apply Forall_forall. intros s Hs.
    destruct (selected_entry text s Hs) as (r & Hr & Hg). exists r. split; [done|apply Hg].
  - intros rejects assigns text cid st e st'.
    intros (appended & failing & pending & _ & Hrecords & Hr)%coordinate_throws.
    exists failing. split; [|done].
    rewrite Hrecords. apply elem_of_app. right. by left.
Qed.

Lemma C8_unlisted_key_falls_back_witness :
  ("gpt_ai" ∉ known_identifiers)
  /\ ("gpt_ai" ∉ object_prototype_names)
  /\ getSpecialistResponse "gpt_ai" "draw a logo" {| originalMessage := "draw a logo" |}
     = Entry code_ai_entry
  /\ member_content
       (getSpecialistResponse "gpt_ai" "draw a logo" {| originalMessage := "draw a logo" |})
     = Some (content code_ai_entry).
Proof.
  assert (H1 : "gpt_ai" ∉ known_identifiers)
    by (apply (bool_decide_unpack _); by vm_compute).
  assert (H2 : "gpt_ai" ∉ object_prototype_names)
    by (apply (bool_decide_unpack _); by vm_compute).
  split; [exact H1|]. split; [exact H2|].
  destruct (C8_unlisted_key_falls_back
              "gpt_ai" "draw a logo" {| originalMessage := "draw a logo" |} H1 H2)
    as (Hentry & Hcontent & _).
  split; [exact Hentry | exact Hcontent].
Defined.

(** C9: each of the four built-in handlers returns one fixed entry,
    whatever the message and the context; so two invocations of the same
    specialist give the same content and the same metadata. *)
Theorem C9_handlers_are_constant :
  Forall (fun specialist =>
            exists r, responses !! specialist = Some r
                      /\ forall message ctx,
                           getSpecialistResponse specialist message ctx = Entry r)
         known_identifiers
  /\ forall specialist message1 ctx1 message2 ctx2,
       (member_content (getSpecialistResponse specialist message1 ctx1),
        member_metadata (getSpecialistResponse specialist message1 ctx1))
       = (member_content (getSpecialistResponse specialist message2 ctx2),
          member_metadata (getSpecialistResponse specialist message2 ctx2)).
Proof.
  split; [|done].
  apply Forall_forall. intros specialist H. by apply known_identifier_entry.
Qed.

(** ** Failing rounds *)

(** A round that throws was stopped by the store: one of the round's records
    was rejected, and the round throws the very exception the store threw.
    The rejected record is not appended, the records before it are appended
    and stay appended, and no record after it is attempted. *)
Theorem failed_round_keeps_appended_prefix rejects assigns
    (userMessage conversationId : string) (st : Store) (e : Exn) (st' : Store) :
  coordinateAIResponse rejects assigns userMessage conversationId st = (inl e, st') ->
  exists appended failing pending,
    st' = st ++ appended
    /\ round_records userMessage conversationId
       = map inserted appended ++ failing :: pending
    /\ rejects (st ++ appended) failing = Some e.
Proof.
  intros H.
  apply coordinate_throws in H as (appended & failing & pending & -> & Hrec & Hr).
  by exists appended, failing, pending.
Qed.

Lemma failed_round_keeps_appended_prefix_witness :
  exists coordinatorMessage codeMessage,
    coordinateAIResponse (unavailable_at 2) numbering "react ui" "conversation-4" []
    = (inl (OtherError "store unavailable"), [coordinatorMessage; codeMessage])
    /\ msg_specialist coordinatorMessage = Some "coordinator"
    /\ msg_specialist codeMessage = Some "code_ai"
    /\ exists appended failing pending,
         [coordinatorMessage; codeMessage] = [] ++ appended
         /\ round_records "react ui" "conversation-4"
            = map inserted appended ++ failing :: pending
         /\ unavailable_at 2 ([] ++ appended) failing
            = Some (OtherError "store unavailable").
Proof.
  eexists _, _. split; [by vm_compute|].
  split; [by vm_compute|]. split; [by vm_compute|].
  match goal with
  | |- exists appended failing pending, ?log = _ /\ _ =>
      assert (H : coordinateAIResponse (unavailable_at 2) numbering
                    "react ui" "conversation-4" []
                  = (inl (OtherError "store unavailable"), log)) by (by vm_compute);
      exact (failed_round_keeps_appended_prefix _ _ _ _ _ _ _ H)
  end.
Defined.

(** ** The route *)

(** C10: the route stores the user Message before the round starts; when the
    round then throws anything but a [ZodError], the answer is the bare 500
    "Failed to create message", the same whatever was stored, and the user
    Message, with what the round appended before it threw, is still in the
    log. *)
Theorem C10_failed_round_keeps_user_message rejects assigns
    (Body Conversation : Type)
    (getConversation : string -> string -> Exn + option Conversation)
    (parse : Body -> string -> list string + ValidatedMessage)
    (req : Request Body) (st : Store)
    (conversation : Conversation) (validatedData : ValidatedMessage)
    (userMessage : Message) (st1 : Store) (e : Exn) (st2 : Store) :
  getConversation (req_params_id req) (req_user_claims_sub req)
    = inr (Some conversation) ->
  parse (req_body req) (req_params_id req) = inr validatedData ->
  createMessage rejects assigns (insert_of validatedData) st = (inr userMessage, st1) ->
  coordinateAIResponse rejects assigns (val_content validatedData) (req_params_id req) st1
    = (inl e, st2) ->
  (forall errors, e <> ZodError errors) ->
  st1 = st ++ [userMessage]
  /\ inserted userMessage = insert_of validatedData
  /\ (exists appended, st2 = st ++ userMessage :: appended)
  /\ postMessage rejects assigns Body Conversation getConversation parse req st
     = ({| status := 500; json := Message_ "Failed to create message" |}, st2).
Proof.
  intros Hconv Hparse Hcreate Hround Hzod.
  pose proof (createMessage_returns _ _ _ _ _ _ Hcreate) as (_ & Hst1 & Hum).
  pose proof (coordinate_throws _ _ _ _ _ _ _ Hround) as (appended & _ & _ & Hst2 & _).
  split; [done|]. split; [done|]. split.
  - exists appended. subst. by rewrite <- app_assoc.
  - unfold postMessage, postMessage_try, bind.
    rewrite Hconv, Hparse. unfold ret at 1. rewrite Hcreate, Hround.
    destruct e as [errors|msg]; [by destruct (Hzod errors)|done].
Qed.

Lemma C10_failed_round_keeps_user_message_witness :
  let req := {| req_user_claims_sub := "user-1";
                req_params_id := "conversation-10";
                req_body := "please review my code" |} in
  exists userMessage coordinatorMessage,
    postMessage (unavailable_at 2) numbering string unit
                any_conversation text_schema_parse req []
    = ({| status := 500; json := Message_ "Failed to create message" |},
       [userMessage; coordinatorMessage])
    /\ msg_role userMessage = "user"
    /\ msg_content userMessage = Some "please review my code"
    /\ msg_role coordinatorMessage = "coordinator".
Proof.
  intros req.
  pose (v := {| val_conversationId := "conversation-10";
                val_role := "user";
                val_content := "please review my code";
                val_specialist := None;
                val_metadata := None |}).
  pose (created := createMessage (unavailable_at 2) numbering (insert_of v) []).
  pose (um := match fst created with inr m => m | inl _ =>
                {| msg_id := ""; msg_conversationId := ""; msg_role := "";
                   msg_content := None; msg_specialist := None;
                   msg_metadata := None; msg_createdAt := 0 |} end).
  pose (round := coordinateAIResponse (unavailable_at 2) numbering
                   "please review my code" "conversation-10" [um]).
  assert (Hcreate : createMessage (unavailable_at 2) numbering (insert_of v) []
                    = (inr um, [um])) by (by vm_compute).
  assert (Hround : coordinateAIResponse (unavailable_at 2) numbering
                     (val_content v) (req_params_id req) [um]
                   = (inl (OtherError "store unavailable"), snd round))
    by (by vm_compute).
  destruct (C10_failed_round_keeps_user_message
              (unavailable_at 2) numbering string unit
              any_conversation text_schema_parse req [] tt v um [um]
              (OtherError "store unavailable") (snd round)
              eq_refl eq_refl Hcreate Hround ltac:(done))
    as (_ & _ & _ & Hpost).
  eexists _, _. split; [rewrite Hpost; by vm_compute|].
  split; [by vm_compute|]. split; by vm_compute.
Defined.

(** ** Evaluations *)

Example classify_is_case_insensitive :
  specialists (analyzeMessage "DESIGN a faster page, then Optimize it")
  = ["design_ai"; "analysis_ai"].
Proof. by vm_compute. Qed.

Example classify_ignores_keyword_position :
  specialists (analyzeMessage "optimize, write, style and code")
  = ["code_ai"; "design_ai"; "writing_ai"; "analysis_ai"].
Proof. by vm_compute. Qed.

Example replace_first_only : JS.replace "a_b_c" "_" " " = "a b_c".
Proof. by vm_compute. Qed.

(** Every name of [Object.prototype] shadows the fallback. *)
Example inherited_names_resolve_to_members :
  Forall (fun name =>
            getSpecialistResponse name "" {| originalMessage := "" |} = Inherited name)
         object_prototype_names.
Proof. repeat constructor. Qed.

(** Over an accepting store the route answers with the user Message and the
    Messages of the round. *)
Example post_message_succeeds :
  let req := {| req_user_claims_sub := "user-1";
                req_params_id := "conversation-1";
                req_body := "write the documentation" |} in
  exists userMessage aiResponses log,
    postMessage accepting numbering string unit any_conversation text_schema_parse req []
    = ({| status := 200; json := Posted userMessage aiResponses |}, log)
    /\ log = userMessage :: aiResponses
    /\ map msg_specialist aiResponses = [Some "coordinator"; Some "writing_ai"].
Proof. eexists _, _, _. split; [by vm_compute|]. split; by vm_compute. Qed.

(** An empty body is refused by the schema: nothing is stored. *)
Example post_message_invalid :
  postMessage accepting numbering string unit any_conversation text_schema_parse
    {| req_user_claims_sub := "user-1"; req_params_id := "conversation-1"; req_body := "" |}
    []
  = ({| status := 400; json := MessageErrors "Invalid message data" ["content: Required"] |},
     []).
Proof. by vm_compute. Qed.

(** * Further properties of the code *)

(** ** Substrings and lowercasing *)

Lemma toLowerCase_append a b :
  JS.toLowerCase (a +:+ b) = JS.toLowerCase a +:+ JS.toLowerCase b.
Proof. induction a as [|c a IH]; simpl; [done|]. by rewrite IH. Qed.

Lemma lower_unit_idempotent c : JS.lower_unit (JS.lower_unit c) = JS.lower_unit c.
Proof. destruct c as [[] [] [] [] [] [] [] []]; by vm_compute. Qed.

Lemma toLowerCase_idempotent s : JS.toLowerCase (JS.toLowerCase s) = JS.toLowerCase s.
Proof.
  induction s as [|c s IH]; simpl; [done|].
  by rewrite lower_unit_idempotent, IH.
Qed.

Lemma startsWith_empty s : JS.startsWith s "" = true.
Proof. by destruct s. Qed.

Lemma startsWith_append s t y :
  JS.startsWith s t = true -> JS.startsWith (s +:+ y) t = true.
Proof.
  revert s. induction t as [|b t IH]; intros s; [intros _; apply startsWith_empty|].
  destruct s as [|a s]; simpl; [done|].
  intros [Hab Hst]%andb_prop. by rewrite Hab, IH.
Qed.

Lemma startsWith_self t y : JS.startsWith (t +:+ y) t = true.
Proof.
  induction t as [|b t IH]; simpl; [apply startsWith_empty|].
  by rewrite Ascii.eqb_refl, IH.
Qed.

Lemma includes_starts s t : JS.startsWith s t = true -> JS.includes s t = true.
Proof. intros H. destruct s; simpl in *; by rewrite H. Qed.

Lemma includes_append_r s t y :
  JS.includes s t = true -> JS.includes (s +:+ y) t = true.
Proof.
  induction s as [|a s IH]; simpl.
  - rewrite orb_false_r. intros H. apply includes_starts.
    by apply (startsWith_append "" t y).
  - intros [H|H]%orb_prop.
    + apply orb_true_iff. left. exact (startsWith_append (String a s) t y H).
    + by rewrite (IH H), orb_true_r.
Qed.

Lemma includes_append_l x s t :
  JS.includes s t = true -> JS.includes (x +:+ s) t = true.
Proof.
  intros H. induction x as [|a x IH]; simpl; [done|].
  by rewrite IH, orb_true_r.
Qed.

(** A string that has [t] inside contains it. *)
Lemma includes_inside x t y : JS.includes (x +:+ t +:+ y) t = true.
Proof.
  apply includes_append_l, includes_starts, startsWith_self.
Qed.

(** ** More on the classifier *)

Lemma group_matches_extends x l y group :
  group_matches l group = true ->
  group_matches (x +:+ l +:+ y) group = true.
Proof.
  unfold group_matches. rewrite !existsb_exists.
  intros (kw & Hin & Hkw). exists kw. split; [done|].
  by apply includes_append_l, includes_append_r.
Qed.

(** The text contains no keyword exactly when no group matches. *)
Lemma no_keyword_groups message :
  no_keyword message <->
  Forall (fun group => group_matches (JS.toLowerCase message) group = false)
         keyword_groups.
Proof.
  unfold no_keyword, keywords, keyword_groups, group_matches; simpl.
  rewrite !Forall_cons, !Forall_nil. simpl.
  rewrite !orb_false_iff. tauto.
Qed.

Lemma matched_group_cases l id :
  (exists kws, (id, kws) ∈ keyword_groups /\ group_matches l (id, kws) = true)
  <-> (id = "code_ai"
       /\ group_matches l ("code_ai", ["code"; "react"; "javascript"; "component"]) = true)
      \/ (id = "design_ai"
          /\ group_matches l ("design_ai", ["design"; "ui"; "ux"; "style"]) = true)
      \/ (id = "writing_ai"
          /\ group_matches l ("writing_ai", ["write"; "content"; "documentation"]) = true)
      \/ (id = "analysis_ai"
          /\ group_matches l ("analysis_ai", ["analyze"; "performance"; "optimize"]) = true).
Proof.
  unfold keyword_groups. split.
  - intros (kws & Hin & Hm).
    rewrite !elem_of_cons, elem_of_nil in Hin.
    destruct Hin as [H|[H|[H|[H|[]]]]]; injection H as -> ->; tauto.
  - intros [[-> H]|[[-> H]|[[-> H]|[-> H]]]];
      eexists; (split; [|exact H]);
      rewrite !elem_of_cons; tauto.
Qed.

(** Who is selected: the specialists whose group matches, and [code_ai] when
    no group does. *)
Lemma select_membership message id :
  id ∈ select (JS.toLowerCase message) <->
  (exists kws, (id, kws) ∈ keyword_groups
               /\ group_matches (JS.toLowerCase message) (id, kws) = true)
  \/ (id = "code_ai" /\ no_keyword message).
Proof.
  rewrite no_keyword_groups, select_selection, matched_group_cases.
  unfold keyword_groups.
  rewrite !Forall_cons, !Forall_nil.
  repeat match goal with
         | |- context [group_matches ?l ?g] =>
             let b := fresh "matched" in
             generalize (group_matches l g); intros b
         end.
  destruct matched, matched0, matched1, matched2;
    unfold selection, push_if; simpl;
    rewrite ?elem_of_cons, ?elem_of_nil; intuition (subst; done).
Qed.

(** A keyword written in any letter case, anywhere in the text, inside a
    word or not, selects the specialist of its group. *)
Theorem keyword_anywhere_selects (id : string) (kws : list string) (kw w x y : string) :
  (id, kws) ∈ keyword_groups ->
  kw ∈ kws ->
  JS.toLowerCase w = kw ->
  id ∈ specialists (analyzeMessage (x +:+ w +:+ y)).
Proof.
  intros Hgroup Hkw Hw.
  apply select_membership. left. exists kws. split; [done|].
  unfold group_matches. apply existsb_exists. exists kw. simpl.
  split; [by apply list_elem_of_In|].
  rewrite !toLowerCase_append, Hw. apply includes_inside.
Qed.

Lemma keyword_anywhere_selects_witness :
  ("design_ai", ["design"; "ui"; "ux"; "style"]) ∈ keyword_groups
  /\ "ui" ∈ ["design"; "ui"; "ux"; "style"]
  /\ JS.toLowerCase "UI" = "ui"
  /\ "design_ai" ∈ specialists (analyzeMessage "Please reBUILD the index").
Proof.
  assert (H1 : ("design_ai", ["design"; "ui"; "ux"; "style"]) ∈ keyword_groups)
    by (apply (bool_decide_unpack _); by vm_compute).
  assert (H2 : "ui" ∈ ["design"; "ui"; "ux"; "style"])
    by (apply (bool_decide_unpack _); by vm_compute).
  split; [exact H1|]. split; [exact H2|]. split; [reflexivity|].
  exact (keyword_anywhere_selects "design_ai" ["design"; "ui"; "ux"; "style"]
           "ui" "UI" "Please reB" "LD the index" H1 H2 eq_refl).
Defined.

(** Text put before or after a message that contains a keyword removes no
    specialist from its selection.  (The fallback [code_ai] of a message
    without keyword is not kept that way.) *)
Theorem extension_keeps_selection (message x y id : string) :
  ~ no_keyword message ->
  id ∈ specialists (analyzeMessage message) ->
  id ∈ specialists (analyzeMessage (x +:+ message +:+ y)).
Proof.
  intros Hkw [(kws & Hin & Hm)|[_ Hno]]%select_membership; [|done].
  apply select_membership. left. exists kws. split; [done|].
  rewrite !toLowerCase_append. by apply group_matches_extends.
Qed.

Lemma extension_keeps_selection_witness :
  ~ no_keyword "optimize it"
  /\ "analysis_ai" ∈ specialists (analyzeMessage "optimize it")
  /\ "analysis_ai" ∈ specialists (analyzeMessage ("Quick: " +:+ "optimize it" +:+ ", thanks")).
Proof.
  assert (H1 : ~ no_keyword "optimize it").
  { intros H. apply no_keyword_groups in H.
    unfold keyword_groups in H. rewrite !Forall_cons in H.
    destruct H as (_ & _ & _ & H & _). vm_compute in H. discriminate H. }
  assert (H2 : "analysis_ai" ∈ specialists (analyzeMessage "optimize it"))
    by (apply (bool_decide_unpack _); by vm_compute).
  split; [exact H1|]. split; [exact H2|].
  exact (extension_keeps_selection "optimize it" "Quick: " ", thanks" "analysis_ai" H1 H2).
Defined.

(** A specialist is selected exactly when a keyword of its group occurs in
    the lowercased text, and [code_ai] also when no keyword at all occurs:
    [code_ai] stands beside another specialist only for a code keyword. *)
Theorem selected_iff_matched_or_fallback (message id : string) :
  id ∈ specialists (analyzeMessage message) <->
  (exists kws, (id, kws) ∈ keyword_groups
               /\ exists kw, kw ∈ kws /\ JS.includes (JS.toLowerCase message) kw = true)
  \/ (id = "code_ai" /\ no_keyword message).
Proof.
  change (specialists (analyzeMessage message)) with (select (JS.toLowerCase message)).
  rewrite select_membership. unfold group_matches. simpl.
  split; (intros [(kws & Hin & H)|H]; [left; exists kws; split; [done|] | by right]).
  - apply existsb_exists in H as (kw & Hkw & H). exists kw.
    split; [by apply list_elem_of_In | done].
  - destruct H as (kw & Hkw & H). apply existsb_exists. exists kw.
    split; [by apply list_elem_of_In | done].
Qed.

(** Classification ignores letter case: lowercasing the message beforehand
    changes neither the selection nor the rationale. *)
Theorem lowercased_message_same_analysis (message : string) :
  specialists (analyzeMessage (JS.toLowerCase message))
  = specialists (analyzeMessage message)
  /\ analysis (analyzeMessage (JS.toLowerCase message))
     = analysis (analyzeMessage message).
Proof.
  unfold analyzeMessage; simpl. by rewrite toLowerCase_idempotent.
Qed.

(** The rationale starts with the fixed sentence and has no underscore
    left. *)
Theorem rationale_has_no_underscore (message : string) :
  JS.startsWith (analysis (analyzeMessage message))
    "I'll coordinate with our specialists to help you: " = true
  /\ JS.includes (analysis (analyzeMessage message)) "_" = false.
Proof. by_selection; by vm_compute. Qed.

(** The rationale tells the selection: two messages with the same rationale
    have the same specialists selected. *)
Theorem rationale_determines_selection (message1 message2 : string) :
  analysis (analyzeMessage message1) = analysis (analyzeMessage message2) ->
  specialists (analyzeMessage message1) = specialists (analyzeMessage message2).
Proof.
  by_selection; vm_compute; intros H; first [reflexivity | discriminate H].
Qed.

Lemma rationale_determines_selection_witness :
  analysis (analyzeMessage "hello") = analysis (analyzeMessage "some CODE")
  /\ specialists (analyzeMessage "hello") = specialists (analyzeMessage "some CODE").
Proof.
  assert (H : analysis (analyzeMessage "hello") = analysis (analyzeMessage "some CODE"))
    by reflexivity.
  split; [exact H|].
  exact (rationale_determines_selection "hello" "some CODE" H).
Defined.

(** ** More on the registry *)

(** The keys of [responses] are the identifiers the classifier can select:
    no selected identifier lacks an entry, and no entry is out of the
    classifier's reach. *)
Theorem registry_keys_are_selectable (identifier : string) :
  has identifier = true <->
  exists message, identifier ∈ specialists (analyzeMessage message).
Proof.
  rewrite has_known. split.
  - unfold known_identifiers. rewrite !elem_of_cons, elem_of_nil.
    intros [->|[->|[->|[->|[]]]]];
      [exists "code" | exists "design" | exists "write" | exists "analyze"];
      apply (bool_decide_unpack _); by vm_compute.
  - intros [message H].
    by apply (proj1 (Forall_forall _ _) (specialists_known message)).
Qed.

(** A lookup gives a result without content, or without metadata, exactly
    for the names of the members of [Object.prototype]. *)
Theorem content_undefined_iff_inherited (key message : string) (ctx : Context) :
  (member_content (getSpecialistResponse key message ctx) = None
   <-> key ∈ object_prototype_names)
  /\ (member_metadata (getSpecialistResponse key message ctx) = None
      <-> key ∈ object_prototype_names).
Proof.
  unfold getSpecialistResponse, responses_get.
  destruct (responses !! key) as [r|] eqn:Hr.
  - assert (Hk : key ∈ known_identifiers) by (apply has_known, bool_decide_eq_true; eauto).
    assert (Hn : key ∉ object_prototype_names).
    { unfold known_identifiers in Hk. rewrite !elem_of_cons, elem_of_nil in Hk.
      destruct Hk as [->|[->|[->|[->|[]]]]]; apply (bool_decide_unpack _); by vm_compute. }
    simpl. split; split; done.
  - destruct (decide (key ∈ object_prototype_names)); simpl; split; split; done.
Qed.

(** ** More on the dispatcher *)

Lemma selection_size message :
  1 <= length (specialists (analyzeMessage message)) <= 4.
Proof. by_selection; simpl; lia. Qed.

Lemma round_records_size text cid :
  length (round_records text cid) = 1 + length (specialists (analyzeMessage text)).
Proof. unfold round_records. simpl. by rewrite length_map. Qed.

Lemma round_records_conversation text cid :
  Forall (fun record => ins_conversationId record = cid) (round_records text cid).
Proof.
  unfold round_records. constructor; [done|].
  apply Forall_forall. intros record.
  rewrite list_elem_of_fmap. by intros (s & -> & _).
Qed.

(** Whatever the outcome, a round leaves the log it found in place and adds
    Messages for a prefix of its records. *)
Lemma coordinate_appends rejects assigns text cid st out st' :
  coordinateAIResponse rejects assigns text cid st = (out, st') ->
  exists appended rest,
    st' = st ++ appended
    /\ round_records text cid = map inserted appended ++ rest.
Proof.
  destruct out as [e|rs]; intros H.
  - apply coordinate_throws in H as (appended & failing & pending & -> & Hrec & _).
    by exists appended, (failing :: pending).
  - apply coordinate_returns in H as [-> Hrec].
    exists rs, []. by rewrite app_nil_r.
Qed.

Lemma round_appends_bound rejects assigns text cid st :
  exists appended,
    snd (coordinateAIResponse rejects assigns text cid st) = st ++ appended
    /\ length appended <= 5.
Proof.
  destruct (coordinateAIResponse rejects assigns text cid st) as [out st'] eqn:H.
  apply coordinate_appends in H as (appended & rest & -> & Hrec).
  exists appended. split; [done|].
  pose proof (round_records_size text cid) as Hsize.
  pose proof (selection_size text) as Hsel.
  rewrite Hrec, length_app, length_map in Hsize. lia.
Qed.

(** A round, however it ends, only appends to the log, at most five
    Messages, all of them under the conversation it was called for. *)
Theorem round_appends_under_its_conversation rejects assigns
    (userMessage conversationId : string) (st : Store) :
  exists appended,
    snd (coordinateAIResponse rejects assigns userMessage conversationId st)
      = st ++ appended
    /\ length appended <= 5
    /\ Forall (fun m => msg_conversationId m = conversationId) appended.
Proof.
  destruct (coordinateAIResponse rejects assigns userMessage conversationId st)
    as [out st'] eqn:H.
  apply coordinate_appends in H as (appended & rest & -> & Hrec).
  exists appended. split; [done|].
  pose proof (round_records_size userMessage conversationId) as Hsize.
  pose proof (selection_size userMessage) as Hsel.
  pose proof (round_records_conversation userMessage conversationId) as Hcid.
  rewrite Hrec in Hsize, Hcid.
  rewrite length_app, length_map in Hsize.
  split; [lia|].
  apply Forall_app in Hcid as [Hcid _].
  apply Forall_forall. intros m Hm.
  apply (proj1 (Forall_forall _ _) Hcid (inserted m)).
  apply list_elem_of_fmap. by exists m.
Qed.

Lemma map_constant_Forall {A B C} (f : A -> B) (c : B) (xs : list A) (ys : list C) :
  map f xs = map (fun _ => c) ys -> Forall (fun x => f x = c) xs.
Proof.
  revert ys. induction xs as [|x xs IH]; intros [|y ys] H;
    try done; try by constructor.
  simpl in H. injection H as Hx Hxs. constructor; [done | by eapply IH].
Qed.

(** A round that returns gives between two and five Messages: the first,
    and only the first, has the role [coordinator], and its metadata lists,
    in order, the specialists whose Messages follow. *)
Theorem returned_round_shape rejects assigns (userMessage conversationId : string)
    (st : Store) (responses : list Message) (st' : Store) :
  coordinateAIResponse rejects assigns userMessage conversationId st
    = (inr responses, st') ->
  2 <= length responses <= 5
  /\ exists coordinatorMessage specialistMessages ids,
       responses = coordinatorMessage :: specialistMessages
       /\ msg_role coordinatorMessage = "coordinator"
       /\ Forall (fun m => msg_role m = "assistant") specialistMessages
       /\ map msg_specialist specialistMessages = map Some ids
       /\ msg_metadata coordinatorMessage
          = Some (JObject [("specialists", JArray (map JString ids))]).
Proof.
  intros [_ Hrec]%coordinate_returns.
  pose proof (round_records_size userMessage conversationId) as Hsize.
  pose proof (selection_size userMessage) as Hsel.
  rewrite <- Hrec, length_map in Hsize. split; [lia|].
  destruct responses as [|m ms]; [done|].
  exists m, ms, (specialists (analyzeMessage userMessage)).
  unfold round_records in Hrec.
  apply (f_equal (map ins_role)) in Hrec as Hrole.
  apply (f_equal (map ins_specialist)) in Hrec as Hspec.
  apply (f_equal (map ins_metadata)) in Hrec as Hmeta.
  rewrite map_map in Hrole, Hspec, Hmeta. simpl in Hrole, Hspec, Hmeta.
  rewrite map_map in Hrole, Hspec. simpl in Hrole, Hspec.
  injection Hrole as Hr Hrs. injection Hspec as _ Hss. injection Hmeta as Hm _.
  split; [done|]. split; [done|]. split; [|split; [|done]].
  - by apply (map_constant_Forall _ _ _ _ Hrs).
  - exact Hss.
Qed.

Lemma returned_round_shape_witness :
  exists rs,
    coordinateAIResponse accepting numbering "style my content" "conversation-2" []
    = (inr rs, rs)
    /\ 2 <= length rs <= 5
    /\ map msg_specialist rs = [Some "coordinator"; Some "design_ai"; Some "writing_ai"].
Proof.
  eexists. split; [by vm_compute|].
  match goal with
  | |- _ <= length ?rs <= _ /\ _ =>
      assert (H : coordinateAIResponse accepting numbering
                    "style my content" "conversation-2" []
                  = (inr rs, rs)) by (by vm_compute);
      split; [exact (proj1 (returned_round_shape _ _ _ _ _ _ _ H)) | by vm_compute]
  end.
Defined.

(** A round returns as soon as the store accepts the records of that round,
    and what it returns are those records as stored. *)
Theorem round_returns_when_records_accepted rejects assigns
    (userMessage conversationId : string) (st : Store) :
  (forall st0 record,
      record ∈ round_records userMessage conversationId -> rejects st0 record = None) ->
  exists responses,
    coordinateAIResponse rejects assigns userMessage conversationId st
      = (inr responses, st ++ responses)
    /\ map inserted responses = round_records userMessage conversationId.
Proof.
  intros Hok.
  destruct (coordinateAIResponse rejects assigns userMessage conversationId st)
    as [[e|rs] st'] eqn:H.
  - apply coordinate_throws in H as (appended & failing & pending & _ & Hrec & Hr).
    rewrite Hok in Hr; [done|].
    rewrite Hrec. apply elem_of_app. right. by left.
  - apply coordinate_returns in H as [-> Hrec]. by exists rs.
Qed.

Lemma round_returns_when_records_accepted_witness :
  (forall st0 record,
      record ∈ round_records "analyze this" "conversation-3" -> accepting st0 record = None)
  /\ exists responses,
       coordinateAIResponse accepting numbering "analyze this" "conversation-3" []
         = (inr responses, [] ++ responses)
       /\ map inserted responses = round_records "analyze this" "conversation-3".
Proof.
  assert (H : forall st0 record,
             record ∈ round_records "analyze this" "conversation-3" ->
             accepting st0 record = None) by reflexivity.
  split; [exact H|].
  exact (round_returns_when_records_accepted accepting numbering
           "analyze this" "conversation-3" [] H).
Defined.

(** ** More on the route *)

Section Route.

Variable rejects : Store -> InsertMessage -> option Exn.
Variable assigns : Store -> InsertMessage -> string * N.
Variables Body Conversation : Type.
Variable getConversation : string -> string -> Exn + option Conversation.
Variable parse : Body -> string -> list string + ValidatedMessage.

Local Abbreviation post :=
  (postMessage rejects assigns Body Conversation getConversation parse).

(** The ownership check comes first: for a conversation that is not found
    the answer is 404 and nothing is stored, whatever the body, valid or
    not. *)
Theorem unknown_conversation_is_404 (req : Request Body) (st : Store) :
  getConversation (req_params_id req) (req_user_claims_sub req) = inr None ->
  post req st = ({| status := 404; json := Message_ "Conversation not found" |}, st).
Proof.
  intros H. unfold postMessage, postMessage_try, bind. by rewrite H.
Qed.

(** A body the schema refuses is answered with 400 and the schema's issues,
    and nothing is stored. *)
Theorem invalid_body_is_400 (req : Request Body) (st : Store)
    (conversation : Conversation) (errors : list string) :
  getConversation (req_params_id req) (req_user_claims_sub req)
    = inr (Some conversation) ->
  parse (req_body req) (req_params_id req) = inl errors ->
  post req st
  = ({| status := 400; json := MessageErrors "Invalid message data" errors |}, st).
Proof.
  intros Hc Hp. unfold postMessage, postMessage_try, bind. by rewrite Hc, Hp.
Qed.

(** Over a store that accepts every record, a valid request to a
    conversation that is found is answered with 200, the stored user Message
    and the Messages of the round; the log grew by exactly these, the user
    Message first. *)
Theorem accepted_post_is_200 (req : Request Body) (st : Store)
    (conversation : Conversation) (validatedData : ValidatedMessage) :
  getConversation (req_params_id req) (req_user_claims_sub req)
    = inr (Some conversation) ->
  parse (req_body req) (req_params_id req) = inr validatedData ->
  (forall st0 record, rejects st0 record = None) ->
  exists userMessage aiResponses,
    post req st
    = ({| status := 200; json := Posted userMessage aiResponses |},
       st ++ userMessage :: aiResponses)
    /\ inserted userMessage = insert_of validatedData
    /\ map inserted aiResponses
       = round_records (val_content validatedData) (req_params_id req).
Proof.
  intros Hc Hp Hok.
  destruct (createMessage_accepted rejects assigns (insert_of validatedData) st (Hok _ _))
    as (um & Hum & Hins).
  destruct (coordinateAIResponse rejects assigns (val_content validatedData)
              (req_params_id req) (st ++ [um])) as [[e|rs] st2] eqn:Hround.
  - apply coordinate_throws in Hround as (? & failing & ? & _ & _ & Hr).
    by rewrite Hok in Hr.
  - apply coordinate_returns in Hround as Hrs. destruct Hrs as [-> Hrec].
    exists um, rs. split; [|done].
    unfold postMessage, postMessage_try, bind.
    rewrite Hc, Hp. unfold ret at 1. rewrite Hum, Hround. unfold ret.
    by rewrite <- app_assoc.
Qed.

(** The [catch] does not ask where a [ZodError] comes from: when the store
    throws one during the round, the request is answered as invalid data
    with that error's issues, although the user Message is stored. *)
Theorem zod_error_of_round_is_400 (req : Request Body) (st : Store)
    (conversation : Conversation) (validatedData : ValidatedMessage)
    (userMessage : Message) (st1 : Store) (errors : list string) (st2 : Store) :
  getConversation (req_params_id req) (req_user_claims_sub req)
    = inr (Some conversation) ->
  parse (req_body req) (req_params_id req) = inr validatedData ->
  createMessage rejects assigns (insert_of validatedData) st = (inr userMessage, st1) ->
  coordinateAIResponse rejects assigns (val_content validatedData) (req_params_id req) st1
    = (inl (ZodError errors), st2) ->
  post req st
  = ({| status := 400; json := MessageErrors "Invalid message data" errors |}, st2)
  /\ userMessage ∈ st2.
Proof.
  intros Hc Hp Hum Hround. split.
  - unfold postMessage, postMessage_try, bind.
    rewrite Hc, Hp. unfold ret at 1. by rewrite Hum, Hround.
  - apply createMessage_returns in Hum as (_ & -> & _).
    apply coordinate_throws in Hround as (appended & _ & _ & -> & _).
    rewrite !elem_of_app, list_elem_of_singleton. auto.
Qed.

Local Ltac nothing_appended :=
  exists []; rewrite app_nil_r; simpl; rewrite !elem_of_cons;
  (split; [done|]); (split; [lia|]); (split; [auto 6|]);
  (split; [by intros [=] | done]).

(** The handler of the route, which runs once [isAuthenticated] has let the
    request through with its user claims: whatever that request and the
    store, the handler only appends to the log, at most six Messages; the
    handler's answer is 200, 400, 404 or 500; a 200 carries the Messages it
    appended, the user Message first; and a 404 has appended nothing. *)
Theorem post_handler_only_appends (req : Request Body) (st : Store) :
  exists appended,
    snd (post req st) = st ++ appended
    /\ length appended <= 6
    /\ status (fst (post req st)) ∈ [200; 400; 404; 500]
    /\ (status (fst (post req st)) = 200 ->
        exists userMessage aiResponses,
          json (fst (post req st)) = Posted userMessage aiResponses
          /\ appended = userMessage :: aiResponses
          /\ 2 <= length aiResponses)
    /\ (status (fst (post req st)) = 404 -> appended = []).
Proof.
  unfold postMessage, postMessage_try, bind.
  destruct (getConversation _ _) as [e|[conversation|]].
  - destruct e; nothing_appended.
  - destruct (parse _ _) as [errors|v]; simpl.
    + nothing_appended.
    + destruct (createMessage rejects assigns (insert_of v) st) as [[e|um] st1] eqn:Hum.
      * apply createMessage_throws in Hum as [_ ->]. destruct e; nothing_appended.
      * apply createMessage_returns in Hum as (_ & -> & _).
        destruct (round_appends_bound rejects assigns (val_content v)
                    (req_params_id req) (st ++ [um])) as (appended & Hst & Hlen).
        destruct (coordinateAIResponse rejects assigns (val_content v)
                    (req_params_id req) (st ++ [um])) as [[e|rs] st2] eqn:Hround;
          simpl in Hst; subst st2.
        -- exists (um :: appended). rewrite <- app_assoc.
           destruct e; simpl; rewrite !elem_of_cons;
             (split; [done|]); (split; [lia|]); (split; [auto 6|]);
             (split; [by intros [=] | by intros [=]]).
        -- pose proof (coordinate_returns _ _ _ _ _ _ _ Hround) as [Heq Hrec].
           apply app_inv_head in Heq. subst appended.
           pose proof (round_records_size (val_content v) (req_params_id req)) as Hsize.
           pose proof (selection_size (val_content v)) as Hsel.
           rewrite <- Hrec, length_map in Hsize.
           exists (um :: rs). rewrite <- app_assoc. simpl.
           rewrite !elem_of_cons.
           split; [done|]. split; [lia|]. split; [auto 6|].
           split; [|by intros [=]].
           intros _. exists um, rs. split; [done|]. split; [done|lia].
  - nothing_appended.
Qed.

End Route.

Lemma unknown_conversation_is_404_witness :
  let req := {| req_user_claims_sub := "user-2";
                req_params_id := "conversation-of-user-1";
                req_body := "" |} in
  no_conversation (req_params_id req) (req_user_claims_sub req) = inr None
  /\ postMessage accepting numbering string unit no_conversation text_schema_parse req []
     = ({| status := 404; json := Message_ "Conversation not found" |}, []).
Proof.
  intros req. split; [reflexivity|].
  exact (unknown_conversation_is_404 accepting numbering string unit
           no_conversation text_schema_parse req [] eq_refl).
Defined.

Lemma invalid_body_is_400_witness :
  let req := {| req_user_claims_sub := "user-1";
                req_params_id := "conversation-1";
                req_body := "" |} in
  text_schema_parse (req_body req) (req_params_id req) = inl ["content: Required"]
  /\ postMessage accepting numbering string unit any_conversation text_schema_parse req []
     = ({| status := 400;
           json := MessageErrors "Invalid message data" ["content: Required"] |}, []).
Proof.
  intros req. split; [reflexivity|].
  exact (invalid_body_is_400 accepting numbering string unit
           any_conversation text_schema_parse req [] tt ["content: Required"]
           eq_refl eq_refl).
Defined.

Lemma accepted_post_is_200_witness :
  let req := {| req_user_claims_sub := "user-1";
                req_params_id := "conversation-1";
                req_body := "optimize my react code" |} in
  exists userMessage aiResponses,
    postMessage accepting numbering string unit any_conversation text_schema_parse req []
    = ({| status := 200; json := Posted userMessage aiResponses |},
       [] ++ userMessage :: aiResponses)
    /\ map msg_specialist aiResponses
       = [Some "coordinator"; Some "code_ai"; Some "analysis_ai"].
Proof.
  intros req.
  destruct (accepted_post_is_200 accepting numbering string unit
              any_conversation text_schema_parse req [] tt
              {| val_conversationId := "conversation-1";
                 val_role := "user";
                 val_content := "optimize my react code";
                 val_specialist := None;
                 val_metadata := None |}
              eq_refl eq_refl (fun _ _ => eq_refl))
    as (um & rs & Hpost & _ & Hrec).
  exists um, rs. split; [exact Hpost|].
  apply (f_equal (map ins_specialist)) in Hrec.
  rewrite map_map in Hrec. exact Hrec.
Defined.

Lemma zod_error_of_round_is_400_witness :
  let req := {| req_user_claims_sub := "user-1";
                req_params_id := "conversation-1";
                req_body := "write it down" |} in
  exists userMessage coordinatorMessage,
    postMessage (validating_at 2) numbering string unit
                any_conversation text_schema_parse req []
    = ({| status := 400;
          json := MessageErrors "Invalid message data" ["metadata: Invalid input"] |},
       [userMessage; coordinatorMessage])
    /\ msg_role userMessage = "user"
    /\ msg_content userMessage = Some "write it down".
Proof.
  intros req.
  pose (v := {| val_conversationId := "conversation-1";
                val_role := "user";
                val_content := "write it down";
                val_specialist := None;
                val_metadata := None |}).
  pose (um := {| msg_id := "message-";
                 msg_conversationId := "conversation-1";
                 msg_role := "user";
                 msg_content := Some "write it down";
                 msg_specialist := None;
                 msg_metadata := None;
                 msg_createdAt := 0 |}).
  pose (round := coordinateAIResponse (validating_at 2) numbering
                   "write it down" "conversation-1" [um]).
  assert (Hum : createMessage (validating_at 2) numbering (insert_of v) []
                = (inr um, [um])) by (by vm_compute).
  assert (Hround : coordinateAIResponse (validating_at 2) numbering
                     (val_content v) (req_params_id req) [um]
                   = (inl (ZodError ["metadata: Invalid input"]), snd round))
    by (by vm_compute).
  destruct (zod_error_of_round_is_400 (validating_at 2) numbering string unit
              any_conversation text_schema_parse req [] tt v um [um]
              ["metadata: Invalid input"] (snd round)
              eq_refl eq_refl Hum Hround) as [Hpost _].
  eexists _, _. split; [rewrite Hpost; by vm_compute|].
  split; by vm_compute.
Defined.

(** ** The chat page *)

Lemma length_append_string a b :
  String.length (a +:+ b) = String.length a + String.length b.
Proof. induction a as [|c a IH]; simpl; [done|]. by rewrite IH. Qed.

Lemma length_slice_to n s :
  String.length (Chat.slice_to n s) = Nat.min n (String.length s).
Proof.
  revert s. induction n as [|n IH]; intros [|c s]; simpl; try done.
  by rewrite IH.
Qed.

Lemma slice_to_short n s : String.length s <= n -> Chat.slice_to n s = s.
Proof.
  revert s. induction n as [|n IH]; intros [|c s]; simpl; try done; [lia|].
  intros H. rewrite IH; [done | lia].
Qed.

Lemma falsy_trimStart s : Chat.falsy (Chat.trimStart s) = JS.white_space_only s.
Proof.
  induction s as [|c s IH]; simpl; [done|].
  by destruct (JS.is_white_space c).
Qed.

Lemma falsy_trimEnd s : Chat.falsy (Chat.trimEnd s) = JS.white_space_only s.
Proof.
  induction s as [|c s IH]; simpl; [done|].
  destruct (Chat.trimEnd s); simpl in *; rewrite <- IH.
  - by destruct (JS.is_white_space c).
  - by rewrite andb_false_r.
Qed.

Lemma white_space_only_trimStart s :
  JS.white_space_only (Chat.trimStart s) = JS.white_space_only s.
Proof.
  induction s as [|c s IH]; simpl; [done|].
  destruct (JS.is_white_space c) eqn:E; simpl; [done | by rewrite E].
Qed.

(** [!s.trim()] holds exactly for the strings of white space. *)
Lemma falsy_trim s : Chat.falsy (Chat.trim s) = JS.white_space_only s.
Proof. unfold Chat.trim. by rewrite falsy_trimEnd, white_space_only_trimStart. Qed.

Lemma white_space_only_append a b :
  JS.white_space_only (a +:+ b) = JS.white_space_only a && JS.white_space_only b.
Proof.
  induction a as [|c a IH]; simpl; [done|]. by rewrite IH, andb_assoc.
Qed.

(** The title of a new conversation has at most 53 characters: it is the
    content itself up to 50 characters, and the first 50 characters followed
    by three dots beyond. *)
Theorem title_is_bounded (content : string) :
  String.length (Chat.conversationTitle content) <= 53
  /\ (String.length content <= 50 -> Chat.conversationTitle content = content)
  /\ (50 < String.length content ->
      Chat.conversationTitle content = Chat.slice_to 50 content +:+ "..."
      /\ String.length (Chat.conversationTitle content) = 53).
Proof.
  unfold Chat.conversationTitle.
  destruct (Nat.ltb_spec 50 (String.length content)) as [H|H].
  - rewrite length_append_string, length_slice_to.
    change (String.length "...") with 3.
    split; [lia|]. split; [lia|]. intros _. split; [done|lia].
  - rewrite length_append_string, length_slice_to.
    change (String.length "") with 0.
    split; [lia|]. split; [|lia].
    intros _. rewrite slice_to_short by done.
    clear H. induction content as [|c s IH]; [done|].
    change (String c (s +:+ "") = String c s). by rewrite IH.
Qed.

Lemma title_is_bounded_witness :
  Chat.conversationTitle "Fix my code" = "Fix my code"
  /\ Chat.conversationTitle
       "Please write the documentation of the whole payment module"
     = "Please write the documentation of the whole paymen" +:+ "...".
Proof.
  split.
  - apply (proj1 (proj2 (title_is_bounded "Fix my code"))). vm_compute. lia.
  - assert (H : 50 < String.length
                       "Please write the documentation of the whole payment module")
      by (vm_compute; lia).
    exact (proj1 (proj2 (proj2 (title_is_bounded
             "Please write the documentation of the whole payment module")) H)).
Defined.

(** [handleSendMessage] sends nothing for an input of white space only, the
    empty input included, and sends every other input as it was typed, not
    trimmed. *)
Theorem send_guard (messageInput : string) :
  Chat.handleSendMessage messageInput
  = if JS.white_space_only messageInput then None else Some messageInput.
Proof. unfold Chat.handleSendMessage. by rewrite falsy_trim. Qed.

(** While a send is pending the button is disabled, but the key handler has
    no such check: Ctrl+Enter and Cmd+Enter send a non-blank input again. *)
Theorem key_handler_ignores_pending (messageInput : string) :
  JS.white_space_only messageInput = false ->
  Chat.sendDisabled messageInput true = true
  /\ Chat.onKeyDown "Enter" false true messageInput = Some messageInput
  /\ Chat.onKeyDown "Enter" true false messageInput = Some messageInput.
Proof.
  intros H. unfold Chat.sendDisabled, Chat.onKeyDown, Chat.handleSendMessage.
  rewrite falsy_trim, H. by rewrite orb_true_r.
Qed.

Lemma key_handler_ignores_pending_witness :
  JS.white_space_only " hello " = false
  /\ Chat.sendDisabled " hello " true = true
  /\ Chat.onKeyDown "Enter" false true " hello " = Some " hello ".
Proof.
  split; [reflexivity|].
  destruct (key_handler_ignores_pending " hello " eq_refl) as (H1 & H2 & _).
  split; [exact H1 | exact H2].
Defined.

(** A message the page sends gets a title that is not blank. *)
Theorem sent_message_title_not_blank (messageInput content : string) :
  Chat.handleSendMessage messageInput = Some content ->
  content = messageInput
  /\ JS.white_space_only (Chat.conversationTitle content) = false.
Proof.
  unfold Chat.handleSendMessage. rewrite falsy_trim.
  destruct (JS.white_space_only messageInput) eqn:E; [done|].
  intros [= <-]. split; [done|].
  unfold Chat.conversationTitle.
  destruct (Nat.ltb_spec 50 (String.length messageInput)) as [H|H].
  - rewrite white_space_only_append. by rewrite andb_false_r.
  - rewrite slice_to_short by done.
    rewrite white_space_only_append, E. done.
Qed.

Lemma sent_message_title_not_blank_witness :
  Chat.handleSendMessage "  review my design  " = Some "  review my design  "
  /\ JS.white_space_only (Chat.conversationTitle "  review my design  ") = false.
Proof.
  split; [reflexivity|].
  exact (proj2 (sent_message_title_not_blank
                  "  review my design  " "  review my design  " eq_refl)).
Defined.
